(** * solidjs-hook-form: the [useForm] controller

    A shallow embedding of [src/solidHookForm.ts] (the documented revision,
    the one with the two [console.error] branches) and of the types of
    [src/types.ts], with the properties of the form controller proved over
    it.

    The two stores of the controller are JavaScript objects used as maps
    from field name to string: they are [gmap string string].  The calls
    into solid-js ([createStore], the store setter, [reconcile]) and into
    zod ([safeParse]) are modelled by their documented effect. *)

From stdpp Require Import base option list gmap strings pretty.

#[local] Open Scope string_scope.

(** ** JavaScript values the controller handles *)

(** A segment of an issue's path.  zod types it [PropertyKey]; the model
    keeps the strings (object keys) and the array indices. *)
Inductive PropertyKey : Type :=
  | PKString (s : string)
  | PKNumber (n : N).

(** [ToBoolean] on a path segment: the empty string and [0] are falsy. *)
Definition truthy (key : PropertyKey) : bool :=
  match key with
  | PKString s => negb (String.eqb s "")
  | PKNumber n => negb (N.eqb n 0)
  end.

(** The property name a segment denotes when it indexes an object.  A
    number is an array index, named by its decimal digits; the exponent
    notation that JavaScript uses for numbers from [10^21] on is not
    modelled, and no statement below depends on the name of a number. *)
Definition toPropertyKey (key : PropertyKey) : string :=
  match key with
  | PKString s => s
  | PKNumber n => pretty n
  end.

(** Whether [errors] has an entry of its own under [k] that is truthy:
    an absent entry and the empty string are not.  For a field name this is
    the test the views make on [formErrors] ([formErrors.email && ...]); it
    does not follow a read up the prototype chain, so it says nothing of
    the names that objects inherit from [Object.prototype]. *)
Definition hasError (errors : gmap string string) (k : string) : bool :=
  match errors !! k with
  | Some m => negb (String.eqb m "")
  | None => false
  end.

(** ** zod *)

Record ZodIssue : Type := {
  path : list PropertyKey;
  message : string
}.

(** The result of [schema.safeParse]: [{success: true, ...}] or
    [{success: false, error: {issues}}]. *)
Inductive SafeParseResult : Type :=
  | ParseSuccess
  | ParseError (issues : list ZodIssue).

(** What [useForm] uses of a [z.ZodObject]: the own enumerable property
    names of [schema.shape], as [Object.keys] lists them, and
    [schema.safeParse]. *)
Record ZodObject : Type := {
  shape : list string;
  safeParse : gmap string string → SafeParseResult
}.

(** The property names every ordinary object inherits from
    [Object.prototype]. *)
Definition Object_prototype : list string :=
  [ "constructor"; "hasOwnProperty"; "isPrototypeOf"; "propertyIsEnumerable";
    "toLocaleString"; "toString"; "valueOf"; "__proto__";
    "__defineGetter__"; "__defineSetter__";
    "__lookupGetter__"; "__lookupSetter__" ].

(** [name in obj] for an ordinary object with the own property names
    [own]: the operator looks at own properties and up the prototype chain.
    [schema.shape] is the object literal handed to [z.object], an ordinary
    object. *)
Definition js_in (name : string) (own : list string) : bool :=
  bool_decide (name ∈ own) || bool_decide (name ∈ Object_prototype).

(** ** The browser *)

(** The target of a change event: [e.target.name] and [e.target.value]. *)
Record Event : Type := {
  target_name : string;
  target_value : string
}.

Inductive ConsoleArg : Type :=
  | ArgString (s : string)
  | ArgIssue (issue : ZodIssue).

(** One call of [console.error(label, arg)]. *)
Record ConsoleError : Type := {
  label : string;
  arg : ConsoleArg
}.

(** ** The controller's state and its effects *)

(** The two stores made by [createStore], and what was written to the
    console so far (oldest first). *)
Record FormState : Type := {
  form : gmap string string;
  formErrors : gmap string string;
  console : list ConsoleError
}.

Definition Effect (A : Type) : Type := FormState → A * FormState.

#[export] Instance Effect_ret : MRet Effect := λ A x st, (x, st).
#[export] Instance Effect_bind : MBind Effect :=
  λ A B f m st, let (x, st') := m st in f x st'.

(** A store setter called on a path: [setStore(key, value)], by its
    documented effect, the entry [key] set to [value].  One key is outside
    that description: a write under ["__proto__"] to a store that has no
    such entry of its own goes to the accessor of [Object.prototype] and
    stores nothing.  The statements on what a write leaves under a key it
    did not hold before leave that key out. *)
Definition setPath (key value : string) (store : gmap string string)
  : gmap string string :=
  <[key := value]> store.

(** [reconcile(value)]: the store is made equal to [value]. *)
Definition reconcile (value : gmap string string) (store : gmap string string)
  : gmap string string :=
  value.

Definition setForm (update : gmap string string → gmap string string)
  : Effect () :=
  λ st, ((), {| form := update (form st);
                formErrors := formErrors st;
                console := console st |}).

Definition setFormErrors (update : gmap string string → gmap string string)
  : Effect () :=
  λ st, ((), {| form := form st;
                formErrors := update (formErrors st);
                console := console st |}).

Definition console_error (l : string) (a : ConsoleArg) : Effect () :=
  λ st, ((), {| form := form st;
                formErrors := formErrors st;
                console := console st ++ [ {| label := l; arg := a |} ] |}).

(** Reading the [form] store. *)
Definition readForm : Effect (gmap string string) :=
  λ st, (form st, st).

(** [for (const x of l) body(x)] *)
Fixpoint for_of {A : Type} (l : list A) (body : A → Effect ()) : Effect () :=
  match l with
  | [] => mret ()
  | x :: rest => body x ;; for_of rest body
  end.

(** ** [useForm] *)

Section Controller.

Variable schema : ZodObject.

(** [Object.keys(schema.shape)] *)
Definition formKeys : list string := shape schema.

(** [Object.fromEntries(formKeys.map((key) => [key, ""]))] *)
Definition initialFormState : gmap string string :=
  list_to_map ((λ key, (key, "")) <$> formKeys).

(** The state right after [useForm(schema)]:
    [createStore({...initialFormState})] and [createStore({})]. *)
Definition useForm : FormState :=
  {| form := initialFormState; formErrors := ∅; console := [] |}.

Definition handleChange (e : Event) : Effect () :=
  let name := target_name e in
  let value := target_value e in
  if js_in name (shape schema) then
    setForm (setPath name value)
  else
    console_error "Invalid input name:" (ArgString name).

(** The body of the loop over [result.error.issues].  [issue.path[0]] is
    [undefined] on an empty path, and [undefined] is falsy. *)
Definition onIssue (issue : ZodIssue) : Effect () :=
  match head (path issue) with
  | Some key =>
      if truthy key then
        setFormErrors (setPath (toPropertyKey key) (message issue))
      else
        console_error "No path found for issue:" (ArgIssue issue)
  | None =>
      console_error "No path found for issue:" (ArgIssue issue)
  end.

Definition validate : Effect bool :=
  values ← readForm;
  let result := safeParse schema values in
  setFormErrors (reconcile initialFormState) ;;
  match result with
  | ParseSuccess => mret true
  | ParseError issues =>
      setFormErrors (reconcile initialFormState) ;;
      for_of issues onIssue ;;
      mret false
  end.

End Controller.

(** ** Vocabulary of the statements *)

(** The key of Field Errors the loop writes an issue to, when it writes
    it: the first segment of the path, if there is one and it is truthy. *)
Definition issueField (issue : ZodIssue) : option string :=
  match head (path issue) with
  | Some key => if truthy key then Some (toPropertyKey key) else None
  | None => None
  end.

(** The key the first segment of an issue's path names, if there is one. *)
Definition firstSegment (issue : ZodIssue) : option string :=
  toPropertyKey <$> head (path issue).

Definition attach (errors : gmap string string) (issue : ZodIssue)
  : gmap string string :=
  match issueField issue with
  | Some k => <[k := message issue]> errors
  | None => errors
  end.

Definition noPathFound (issue : ZodIssue) : ConsoleError :=
  {| label := "No path found for issue:"; arg := ArgIssue issue |}.

(** The issues the loop reports on the console, in order. *)
Definition dropped (issues : list ZodIssue) : list ZodIssue :=
  filter (λ issue, issueField issue = None) issues.

(** The issues of a validation pass: none when it succeeds. *)
Definition issuesOf (result : SafeParseResult) : list ZodIssue :=
  match result with
  | ParseSuccess => []
  | ParseError issues => issues
  end.

(** The calls a view makes on a controller. *)
Inductive Call : Type :=
  | CallHandleChange (e : Event)
  | CallValidate.

Definition call (schema : ZodObject) (c : Call) (st : FormState) : FormState :=
  match c with
  | CallHandleChange e => (handleChange schema e st).2
  | CallValidate => (validate schema st).2
  end.

(** [reachable schema st issues]: the controller of [schema] is in state
    [st] after [useForm] and some calls of [handleChange] and [validate],
    and [issues] are those of the latest [validate] (none before the first
    one, none after a pass that succeeded). *)
Inductive reachable (schema : ZodObject) : FormState → list ZodIssue → Prop :=
  | reachable_useForm :
      reachable schema (useForm schema) []
  | reachable_handleChange st issues e :
      reachable schema st issues →
      reachable schema (call schema (CallHandleChange e) st) issues
  | reachable_validate st issues :
      reachable schema st issues →
      reachable schema (call schema CallValidate st)
        (issuesOf (safeParse schema (form st))).

(** ** Sample schemas *)

(** What [z.string()] reports on a key the parsed object lacks. *)
Definition expectedString (key : string) : ZodIssue :=
  {| path := [PKString key];
     message := "Invalid input: expected string, received undefined" |}.

Definition passwordsDoNotMatch (issuePath : list PropertyKey) : ZodIssue :=
  {| path := issuePath; message := "The passwords do not match" |}.

(** The password part of the README's registration schema,
    [z.object({password: z.string(), confirmPassword: z.string()})
       .superRefine(({password, confirmPassword}, ctx) => {
          if (password !== confirmPassword)
            ctx.addIssue({code: "custom",
                          message: "The passwords do not match",
                          path: issuePath}) })],
    with the path of the custom issue left open. *)
Definition passwordsSchema (issuePath : list PropertyKey) : ZodObject :=
  {| shape := ["password"; "confirmPassword"];
     safeParse := λ values,
       match values !! "password", values !! "confirmPassword" with
       | Some password, Some confirmPassword =>
           if String.eqb password confirmPassword then ParseSuccess
           else ParseError [passwordsDoNotMatch issuePath]
       | password, confirmPassword =>
           ParseError
             ((if password is Some _ then [] else [expectedString "password"]) ++
              (if confirmPassword is Some _ then []
               else [expectedString "confirmPassword"]))
       end |}.

(** The README's use: the issue is put on [confirmPassword]. *)
Definition registerSchema : ZodObject :=
  passwordsSchema [PKString "confirmPassword"].

(** The same schema with the path misspelt: [path: ["confirm"]]. *)
Definition misspeltSchema : ZodObject :=
  passwordsSchema [PKString "confirm"].

(** The same schema with the issue raised on the form as a whole: no
    [path] is given, the issue's path is empty. *)
Definition formLevelSchema : ZodObject :=
  passwordsSchema [].

Definition required (key : string) : ZodIssue :=
  {| path := [PKString key]; message := "Required" |}.

(** [z.object({"": z.string().min(1, "Required")})]: one field, whose name
    is the empty string. *)
Definition blankNameSchema : ZodObject :=
  {| shape := [""];
     safeParse := λ values,
       match values !! "" with
       | Some value =>
           if String.eqb value "" then ParseError [required ""]
           else ParseSuccess
       | None => ParseError [expectedString ""]
       end |}.

Definition changeEvent (name value : string) : Event :=
  {| target_name := name; target_value := value |}.

(** Typing the password only into a fresh form of [schema]. *)
Definition passwordOnly (schema : ZodObject) : FormState :=
  call schema (CallHandleChange (changeEvent "password" "correct horse"))
    (useForm schema).

(** A registration form in which only the password was typed, validated
    once (the pass fails), and then completed. *)
Definition completedAfterFailure : FormState :=
  call registerSchema
    (CallHandleChange (changeEvent "confirmPassword" "correct horse"))
    (call registerSchema CallValidate (passwordOnly registerSchema)).

(** ** Sequences of calls *)

(** The state after the calls [calls], made in order from [st]. *)
Definition runCalls (schema : ZodObject) (calls : list Call) (st : FormState)
  : FormState :=
  foldl (λ st c, call schema c st) st calls.

(** The value a call gives the field [name], if it is a change event on
    that name. *)
Definition inputTo (name : string) (c : Call) : option string :=
  match c with
  | CallHandleChange e =>
      if bool_decide (target_name e = name) then Some (target_value e) else None
  | CallValidate => None
  end.

(** The value of the last change event on [name] among [calls]. *)
Definition lastInput (name : string) (calls : list Call) : option string :=
  last (omap (inputTo name) calls).

(** ** A schema with two rules on one field *)

Definition pinTooShort : ZodIssue :=
  {| path := [PKString "pin"]; message := "At least 4 characters" |}.

Definition pinNotDigits : ZodIssue :=
  {| path := [PKString "pin"]; message := "Digits only" |}.

(** The test of [/^[0-9]+$/] on an ASCII string. *)
Definition isDigits (s : string) : bool :=
  negb (String.eqb s "")
  && forallb (λ c, (48 <=? Ascii.nat_of_ascii c)%nat && (Ascii.nat_of_ascii c <=? 57)%nat)
       (String.list_ascii_of_string s).

(** [z.object({pin: z.string().min(4, "At least 4 characters")
                               .regex(/^[0-9]+$/, "Digits only")})]:
    both rules are run, and each reports its own issue on [pin]. *)
Definition pinSchema : ZodObject :=
  {| shape := ["pin"];
     safeParse := λ values,
       match values !! "pin" with
       | Some pin =>
           match ((if (String.length pin <? 4)%nat then [pinTooShort] else [])
                  ++ (if isDigits pin then [] else [pinNotDigits]))%list with
           | [] => ParseSuccess
           | issues => ParseError issues
           end
       | None => ParseError [expectedString "pin"]
       end |}.

(** ** The first revision of [handleChange] *)

Module FirstRevision.

(** [handleChange] as the file has it first: the same test, and no branch
    for a name that fails it. *)
Definition handleChange (schema : ZodObject) (e : Event) : Effect () :=
  let name := target_name e in
  let value := target_value e in
  if js_in name (shape schema) then
    setForm (setPath name value)
  else
    mret ().

End FirstRevision.

(** ** [rollup.config.mjs] *)





(** ** Construction *)

Lemma initialFormState_lookup (schema : ZodObject) (k : string) :
  initialFormState schema !! k = if bool_decide (k ∈ shape schema) then Some "" else None.
Proof.
  unfold initialFormState, formKeys.
  induction (shape schema) as [|x l IH].
  - apply lookup_empty.
  - rewrite fmap_cons, list_to_map_cons, lookup_insert.
    destruct (decide (x = k)) as [->|Hx].
    + rewrite bool_decide_eq_true_2; [done | left].
    + rewrite IH. rewrite (bool_decide_ext (k ∈ x :: l) (k ∈ l)); [done|].
      rewrite elem_of_cons. split; [intros [Heq|Hin]; [congruence | done] | by right].
Qed.

Lemma initialFormState_dom (schema : ZodObject) :
  dom (initialFormState schema) = list_to_set (shape schema).
Proof.
  apply set_eq. intros k. rewrite elem_of_dom, initialFormState_lookup.
  rewrite elem_of_list_to_set.
  case_bool_decide; split; intros H'; try done; by destruct H'.
Qed.

(** C3: right after [useForm(schema)], Field Values has exactly the keys of
    the schema, each mapped to the empty string, and Field Errors is the
    empty mapping. *)
Theorem useForm_initial (schema : ZodObject) :
  dom (form (useForm schema)) = list_to_set (shape schema)
  ∧ (∀ k, k ∈ shape schema → form (useForm schema) !! k = Some "")
  ∧ formErrors (useForm schema) = ∅
  ∧ dom (formErrors (useForm schema)) = (∅ : gset string).
Proof.
  split; [apply initialFormState_dom|].
  split; [|split; [done | simpl; apply dom_empty_L]].
  intros k Hk. simpl. rewrite initialFormState_lookup.
  by rewrite bool_decide_eq_true_2.
Qed.

(** ** Change handling *)

Lemma js_in_own (name : string) (own : list string) :
  name ∈ own → js_in name own = true.
Proof.
  intros Hin. unfold js_in. by rewrite bool_decide_eq_true_2.
Qed.

Lemma handleChange_formErrors (schema : ZodObject) (e : Event) (st : FormState) :
  formErrors (handleChange schema e st).2 = formErrors st.
Proof.
  unfold handleChange. by destruct (js_in _ _).
Qed.

(** C4: a change event that names a field of the schema writes its value
    into Field Values at that key and leaves every other key as it was. *)
Theorem handleChange_writes_field (schema : ZodObject) (e : Event) (st : FormState) :
  target_name e ∈ shape schema →
  form (handleChange schema e st).2 !! target_name e = Some (target_value e)
  ∧ (∀ k, k ≠ target_name e →
       form (handleChange schema e st).2 !! k = form st !! k)
  ∧ formErrors (handleChange schema e st).2 = formErrors st.
Proof.
  intros Hin. split; [|split; [|apply handleChange_formErrors]].
  - unfold handleChange. rewrite (js_in_own _ _ Hin). simpl.
    unfold setPath. apply lookup_insert_eq.
  - intros k Hk. unfold handleChange. rewrite (js_in_own _ _ Hin). simpl.
    unfold setPath. by apply lookup_insert_ne.
Qed.

(** A name that is neither a key of the schema nor inherited from
    [Object.prototype] is logged and changes nothing else. *)
Lemma handleChange_unknown_name (schema : ZodObject) (e : Event) (st : FormState) :
  target_name e ∉ shape schema →
  target_name e ∉ Object_prototype →
  handleChange schema e st =
    ((), {| form := form st;
            formErrors := formErrors st;
            console := console st ++
              [ {| label := "Invalid input name:";
                   arg := ArgString (target_name e) |} ] |}).
Proof.
  intros Hown Hproto. unfold handleChange, js_in.
  by rewrite !bool_decide_eq_false_2.
Qed.

(** ** The loop over the issues *)

Lemma issueField_firstSegment (issue : ZodIssue) (k : string) :
  issueField issue = Some k → firstSegment issue = Some k.
Proof.
  unfold issueField, firstSegment.
  destruct (head (path issue)) as [key|]; [|done].
  by destruct (truthy key).
Qed.

Lemma not_named_not_written (issues : list ZodIssue) (k : string) :
  k ∉ omap firstSegment issues → k ∉ omap issueField issues.
Proof.
  intros Hk Hin. apply Hk.
  apply list_elem_of_omap in Hin as (issue & Hin & Hfield).
  apply list_elem_of_omap. exists issue.
  split; [done | by apply issueField_firstSegment].
Qed.

(** A first segment that is falsy (the empty string, [0]) sends the issue
    to the branch that reports it. *)
Lemma onIssue_falsy_segment (issue : ZodIssue) (key : PropertyKey)
    (st : FormState) :
  head (path issue) = Some key →
  truthy key = false →
  onIssue issue st =
    ((), {| form := form st;
            formErrors := formErrors st;
            console := console st ++
              [ {| label := "No path found for issue:";
                   arg := ArgIssue issue |} ] |}).
Proof.
  intros Hhead Hfalsy. unfold onIssue. by rewrite Hhead, Hfalsy.
Qed.

Lemma onIssue_spec (issue : ZodIssue) (st : FormState) :
  onIssue issue st =
    ((), {| form := form st;
            formErrors := attach (formErrors st) issue;
            console := console st ++ (noPathFound <$> dropped [issue]) |}).
Proof.
  unfold onIssue, attach, dropped, issueField.
  destruct (head (path issue)) as [key|] eqn:Hhead.
  - destruct (truthy key) eqn:Htruthy.
    + rewrite filter_cons_False; [|by rewrite Hhead, Htruthy].
      destruct st; simpl. by rewrite app_nil_r.
    + rewrite filter_cons_True; [done|by rewrite Hhead, Htruthy].
  - rewrite filter_cons_True; [done|by rewrite Hhead].
Qed.

Lemma for_of_onIssue_spec (issues : list ZodIssue) (st : FormState) :
  for_of issues onIssue st =
    ((), {| form := form st;
            formErrors := foldl attach (formErrors st) issues;
            console := console st ++ (noPathFound <$> dropped issues) |}).
Proof.
  revert st. induction issues as [|issue issues IH]; intros st.
  - destruct st; simpl. by rewrite app_nil_r.
  - simpl. unfold mbind, Effect_bind. rewrite onIssue_spec, IH. simpl.
    f_equal. f_equal. rewrite <- app_assoc, <- fmap_app. f_equal. f_equal.
    unfold dropped. by rewrite <- filter_app.
Qed.

(** The last issue written to a key decides its entry. *)
Lemma foldl_attach_lookup (issues : list ZodIssue) (errors : gmap string string)
    (k : string) :
  foldl attach errors issues !! k =
    match last (filter (λ issue, issueField issue = Some k) issues) with
    | Some issue => Some (message issue)
    | None => errors !! k
    end.
Proof.
  induction issues as [|issue issues IH] using rev_ind; [done|].
  rewrite foldl_snoc, filter_app, last_app, filter_singleton by done.
  unfold attach at 1.
  destruct (decide (issueField issue = Some k)) as [Hk|Hk]; simpl.
  - rewrite Hk. apply lookup_insert_eq.
  - destruct (issueField issue) as [k'|] eqn:Hf; [|apply IH].
    rewrite lookup_insert_ne by congruence. apply IH.
Qed.

Lemma foldl_attach_dom (issues : list ZodIssue) (errors : gmap string string) :
  dom (foldl attach errors issues) = dom errors ∪ list_to_set (omap issueField issues).
Proof.
  revert errors. induction issues as [|issue issues IH]; intros errors; simpl.
  - by rewrite union_empty_r_L.
  - rewrite IH. unfold attach.
    destruct (issueField issue) as [k|]; simpl; [|done].
    by rewrite dom_insert_L, (comm_L (∪) {[k]} (dom errors)), (assoc_L (∪)).
Qed.

(** ** Validation *)

Lemma validate_success (schema : ZodObject) (st : FormState) :
  safeParse schema (form st) = ParseSuccess →
  validate schema st =
    (true, {| form := form st;
              formErrors := initialFormState schema;
              console := console st |}).
Proof.
  intros Hok. unfold validate, mbind, Effect_bind, readForm. by rewrite Hok.
Qed.

Lemma validate_error (schema : ZodObject) (st : FormState) (issues : list ZodIssue) :
  safeParse schema (form st) = ParseError issues →
  validate schema st =
    (false, {| form := form st;
               formErrors := foldl attach (initialFormState schema) issues;
               console := console st ++ (noPathFound <$> dropped issues) |}).
Proof.
  intros Hko. unfold validate, mbind, Effect_bind, readForm. rewrite Hko. simpl.
  by rewrite for_of_onIssue_spec.
Qed.

Lemma validate_formErrors (schema : ZodObject) (st : FormState) :
  formErrors (validate schema st).2 =
    foldl attach (initialFormState schema) (issuesOf (safeParse schema (form st))).
Proof.
  destruct (safeParse schema (form st)) as [|issues] eqn:Hresult.
  - by rewrite (validate_success _ _ Hresult).
  - by rewrite (validate_error _ _ _ Hresult).
Qed.

Lemma hasError_initialFormState (schema : ZodObject) (k : string) :
  hasError (initialFormState schema) k = false.
Proof.
  unfold hasError. rewrite initialFormState_lookup. by case_bool_decide.
Qed.

Lemma filter_issueField_nil (issues : list ZodIssue) (k : string) :
  k ∉ omap issueField issues →
  filter (λ issue, issueField issue = Some k) issues = [].
Proof.
  induction issues as [|issue issues IH]; [done|]. simpl.
  destruct (issueField issue) as [k'|] eqn:Hfield; intros Hk.
  - rewrite not_elem_of_cons in Hk. destruct Hk as [Hne Hk].
    rewrite filter_cons_False by congruence. by apply IH.
  - rewrite filter_cons_False by congruence. by apply IH.
Qed.

(** A key no issue is written to keeps what it had before the loop. *)
Lemma foldl_attach_untouched (issues : list ZodIssue)
    (errors : gmap string string) (k : string) :
  k ∉ omap issueField issues → foldl attach errors issues !! k = errors !! k.
Proof.
  intros Hk. by rewrite foldl_attach_lookup, filter_issueField_nil.
Qed.

(** Issues the loop only reports can be left out of the list. *)
Lemma foldl_attach_filter (P : ZodIssue → Prop) `{!∀ issue, Decision (P issue)}
    (issues : list ZodIssue) (errors : gmap string string) :
  (∀ issue, ¬ P issue → issueField issue = None) →
  foldl attach errors (filter P issues) = foldl attach errors issues.
Proof.
  intros Hdrop. revert errors.
  induction issues as [|issue issues IH]; intros errors; [done|].
  destruct (decide (P issue)) as [HP|HP].
  - rewrite filter_cons_True by done. simpl. apply IH.
  - rewrite filter_cons_False by done. simpl.
    replace (attach errors issue) with errors; [apply IH|].
    unfold attach. by rewrite (Hdrop _ HP).
Qed.

(** ** The claims about validation *)

(** C1: on values that satisfy the schema [validate] returns [true] and
    leaves no error message in Field Errors, whatever an earlier pass had
    put there: every key of the schema holds the empty string, and no other
    key is left. *)
Theorem validate_valid_clears_errors (schema : ZodObject) (st : FormState) :
  safeParse schema (form st) = ParseSuccess →
  (validate schema st).1 = true
  ∧ formErrors (validate schema st).2 = initialFormState schema
  ∧ (∀ k m, formErrors (validate schema st).2 !! k = Some m → m = "")
  ∧ (∀ k, hasError (formErrors (validate schema st).2) k = false).
Proof.
  intros Hok. rewrite (validate_success _ _ Hok). simpl.
  split; [done|]. split; [done|]. split.
  - intros k m. rewrite initialFormState_lookup.
    case_bool_decide; congruence.
  - apply hasError_initialFormState.
Qed.

(** The second of two passes: the first left an error on
    [confirmPassword], the form was completed, the second pass clears it. *)
Lemma validate_valid_clears_errors_witness :
  hasError (formErrors completedAfterFailure) "confirmPassword" = true
  ∧ safeParse registerSchema (form completedAfterFailure) = ParseSuccess
  ∧ (validate registerSchema completedAfterFailure).1 = true
  ∧ formErrors (validate registerSchema completedAfterFailure).2
      = initialFormState registerSchema
  ∧ (∀ k m, formErrors (validate registerSchema completedAfterFailure).2 !! k
              = Some m → m = "")
  ∧ (∀ k, hasError (formErrors (validate registerSchema completedAfterFailure).2) k
          = false).
Proof.
  split; [by vm_compute|]. split; [by vm_compute|].
  apply (validate_valid_clears_errors registerSchema completedAfterFailure).
  by vm_compute.
Defined.

(** C2, at a field whose name is the empty string: the pass fails with one
    issue, whose path is [[""]]; [validate] returns [false], reports
    "No path found" and leaves the entry of that field empty. *)
Example validate_blank_name_dropped :
  safeParse blankNameSchema (form (useForm blankNameSchema))
    = ParseError [required ""]
  ∧ path (required "") ≠ []
  ∧ validate blankNameSchema (useForm blankNameSchema)
    = (false, {| form := {[ "" := "" ]};
                 formErrors := {[ "" := "" ]};
                 console := [noPathFound (required "")] |})
  ∧ formErrors (validate blankNameSchema (useForm blankNameSchema)).2 !! ""
    ≠ Some (message (required "")).
Proof.
  split; [by vm_compute|]. split; [done|]. split; [by vm_compute|].
  by vm_compute.
Qed.

(** X3: for the issues the loop does write, the last one on a key wins:
    in a failing pass Field Errors holds, under a key that issues are
    written to, the message of the last of them.  (The key ["__proto__"]
    is left out: a store keeps no write under it.) *)
Lemma validate_last_issue_wins (schema : ZodObject) (st : FormState)
    (issues : list ZodIssue) (k : string) (issue : ZodIssue) :
  k ≠ "__proto__" →
  safeParse schema (form st) = ParseError issues →
  last (filter (λ issue, issueField issue = Some k) issues) = Some issue →
  (validate schema st).1 = false
  ∧ formErrors (validate schema st).2 !! k = Some (message issue).
Proof.
  intros _ Hko Hlast. rewrite (validate_error _ _ _ Hko). simpl.
  split; [done|]. by rewrite foldl_attach_lookup, Hlast.
Qed.

(** C6: in a failing pass an issue with an empty path is reported on the
    console and written to no key: handling it leaves Field Errors as it
    is, and the pass ends with the Field Errors that the issues with a path
    give alone. *)
Theorem validate_drops_pathless_issue (schema : ZodObject) (st : FormState)
    (issues : list ZodIssue) (issue : ZodIssue) :
  safeParse schema (form st) = ParseError issues →
  issue ∈ issues →
  path issue = [] →
  (validate schema st).1 = false
  ∧ noPathFound issue ∈ console (validate schema st).2
  ∧ (∀ s, onIssue issue s =
            ((), {| form := form s;
                    formErrors := formErrors s;
                    console := console s ++ [noPathFound issue] |}))
  ∧ formErrors (validate schema st).2 =
      formErrors
        (for_of (filter (λ i, path i ≠ []) issues) onIssue
           (setFormErrors (reconcile (initialFormState schema)) st).2).2.
Proof.
  intros Hko Hin Hpath.
  assert (issueField issue = None) as Hfield.
  { unfold issueField. by rewrite Hpath. }
  rewrite (validate_error _ _ _ Hko). simpl.
  split; [done|]. split; [|split].
  - apply elem_of_app. right. apply list_elem_of_fmap. exists issue.
    split; [done|]. unfold dropped. by apply list_elem_of_filter.
  - intros s. unfold onIssue. by rewrite Hpath.
  - rewrite for_of_onIssue_spec. simpl. unfold reconcile.
    symmetry. apply foldl_attach_filter.
    intros i Hi. apply dec_stable in Hi. unfold issueField. by rewrite Hi.
Qed.

Lemma validate_drops_pathless_issue_witness :
  safeParse formLevelSchema (form (passwordOnly formLevelSchema))
    = ParseError [passwordsDoNotMatch []]
  ∧ console (validate formLevelSchema (passwordOnly formLevelSchema)).2
    = [noPathFound (passwordsDoNotMatch [])]
  ∧ formErrors (validate formLevelSchema (passwordOnly formLevelSchema)).2
    = initialFormState formLevelSchema
  ∧ noPathFound (passwordsDoNotMatch [])
      ∈ console (validate formLevelSchema (passwordOnly formLevelSchema)).2.
Proof.
  split; [by vm_compute|]. split; [by vm_compute|]. split; [by vm_compute|].
  refine (proj1 (proj2
    (validate_drops_pathless_issue formLevelSchema (passwordOnly formLevelSchema)
       [passwordsDoNotMatch []] (passwordsDoNotMatch []) _ _ _))).
  - by vm_compute.
  - apply list_elem_of_here.
  - reflexivity.
Defined.

(** C7: when the pass fails with the single issue of the cross-field rule,
    on the path [["confirmPassword"]], [validate] returns [false], puts the
    issue's message on [confirmPassword] and leaves every other key as the
    reset made it: without an error. *)
Theorem validate_confirmPassword_only (schema : ZodObject) (st : FormState)
    (m : string) :
  safeParse schema (form st)
    = ParseError [ {| path := [PKString "confirmPassword"]; message := m |} ] →
  (validate schema st).1 = false
  ∧ formErrors (validate schema st).2 !! "confirmPassword" = Some m
  ∧ (∀ k, k ≠ "confirmPassword" →
       formErrors (validate schema st).2 !! k = initialFormState schema !! k
       ∧ hasError (formErrors (validate schema st).2) k = false).
Proof.
  intros Hko. rewrite (validate_error _ _ _ Hko). simpl.
  unfold attach. simpl.
  split; [done|]. split; [apply lookup_insert_eq|].
  intros k Hk. unfold hasError. rewrite lookup_insert_ne by done.
  split; [done|]. apply hasError_initialFormState.
Qed.

Lemma validate_confirmPassword_only_witness :
  form (passwordOnly registerSchema) !! "password"
    ≠ form (passwordOnly registerSchema) !! "confirmPassword"
  ∧ (validate registerSchema (passwordOnly registerSchema)).1 = false
  ∧ formErrors (validate registerSchema (passwordOnly registerSchema)).2
      !! "confirmPassword" = Some "The passwords do not match"
  ∧ (∀ k, k ≠ "confirmPassword" →
       formErrors (validate registerSchema (passwordOnly registerSchema)).2 !! k
         = initialFormState registerSchema !! k
       ∧ hasError
           (formErrors (validate registerSchema (passwordOnly registerSchema)).2) k
         = false).
Proof.
  split; [by vm_compute|].
  apply (validate_confirmPassword_only registerSchema
           (passwordOnly registerSchema) "The passwords do not match").
  by vm_compute.
Defined.

(** C10: [validate] reads Field Values and writes Field Errors only: Field
    Values is the same before and after the call, whatever the result. *)
Theorem validate_preserves_form (schema : ZodObject) (st : FormState) :
  form (validate schema st).2 = form st.
Proof.
  unfold validate, mbind, Effect_bind, readForm. simpl.
  destruct (safeParse schema (form st)) as [|issues]; [done|].
  simpl. by rewrite for_of_onIssue_spec.
Qed.

(** ** The keys of Field Errors *)

(** What holds of the keys of Field Errors after any call of [validate]:
    every key of the schema is among them, and a key that is not of the
    schema is one an issue of the pass was written to; so they are exactly
    the schema's when the pass succeeds or every issue is on a field of the
    schema.  A field of the schema no issue was written to holds the empty
    string: it is not absent. *)
Lemma validate_formErrors_keys (schema : ZodObject) (st : FormState) :
  list_to_set (shape schema) ⊆ dom (formErrors (validate schema st).2)
  ∧ dom (formErrors (validate schema st).2)
    ⊆ list_to_set (shape schema)
      ∪ list_to_set (omap issueField (issuesOf (safeParse schema (form st))))
  ∧ ((validate schema st).1 = true →
       dom (formErrors (validate schema st).2) = list_to_set (shape schema))
  ∧ ((∀ k, k ∈ omap issueField (issuesOf (safeParse schema (form st))) →
           k ∈ shape schema) →
       dom (formErrors (validate schema st).2) = list_to_set (shape schema))
  ∧ (∀ k, k ∈ shape schema →
       k ∉ omap issueField (issuesOf (safeParse schema (form st))) →
       formErrors (validate schema st).2 !! k = Some "").
Proof.
  assert (dom (formErrors (validate schema st).2)
    = list_to_set (shape schema)
      ∪ list_to_set (omap issueField (issuesOf (safeParse schema (form st)))))
    as Hdom.
  { by rewrite validate_formErrors, foldl_attach_dom, initialFormState_dom. }
  split; [|split; [by rewrite Hdom|split; [|split]]].
  - rewrite Hdom. apply union_subseteq_l.
  - intros Htrue. rewrite Hdom.
    destruct (safeParse schema (form st)) as [|issues] eqn:Hresult.
    + simpl. apply union_empty_r_L.
    + by rewrite (validate_error _ _ _ Hresult) in Htrue.
  - intros Hin. rewrite Hdom. apply set_eq. intros k.
    rewrite elem_of_union, !elem_of_list_to_set.
    split; [intros [Hk|Hk]; [done|by apply Hin] | by left].
  - intros k Hk Hnone.
    rewrite validate_formErrors, foldl_attach_untouched by done.
    rewrite initialFormState_lookup. by rewrite bool_decide_eq_true_2.
Qed.

(** C9, where the code departs from it: with the path of the custom issue
    misspelt, the pass returns [false] and Field Errors has the key
    [confirm] after it, which the schema has not; the key set is not the
    schema's. *)
Lemma validate_formErrors_keys_not_exact :
  (validate misspeltSchema (passwordOnly misspeltSchema)).1 = false
  ∧ "confirm" ∈ dom (formErrors
                      (validate misspeltSchema (passwordOnly misspeltSchema)).2)
  ∧ ("confirm" ∉ shape misspeltSchema)
  ∧ dom (formErrors (validate misspeltSchema (passwordOnly misspeltSchema)).2)
    ≠ list_to_set (shape misspeltSchema).
Proof.
  assert ("confirm" ∉ shape misspeltSchema) as Hnot.
  { apply (bool_decide_eq_false_1 _). by vm_compute. }
  assert ("confirm" ∈ dom (formErrors
            (validate misspeltSchema (passwordOnly misspeltSchema)).2)) as Hin.
  { apply elem_of_dom. exists "The passwords do not match". by vm_compute. }
  split; [by vm_compute|]. split; [done|]. split; [done|].
  intros Hexact. rewrite Hexact in Hin. apply Hnot.
  by apply elem_of_list_to_set in Hin.
Qed.

(** What holds of Field Errors in every state reached from [useForm] by
    calls of [handleChange] and [validate]: a key of it is a key of the
    schema or a key an issue of the latest pass was written to, so the keys
    are within the schema's when those issues are all on fields of the
    schema; and a field that no issue of the latest pass was written to has
    no error, so a field that no issue of the latest pass names has none. *)
Lemma reachable_formErrors (schema : ZodObject) (st : FormState)
    (issues : list ZodIssue) :
  reachable schema st issues →
  dom (formErrors st)
    ⊆ list_to_set (shape schema) ∪ list_to_set (omap issueField issues)
  ∧ ((∀ k, k ∈ omap issueField issues → k ∈ shape schema) →
       dom (formErrors st) ⊆ list_to_set (shape schema))
  ∧ (∀ k, k ∉ omap issueField issues → hasError (formErrors st) k = false)
  ∧ (∀ k, k ∉ omap firstSegment issues → hasError (formErrors st) k = false).
Proof.
  intros Hreach.
  enough (dom (formErrors st)
            ⊆ list_to_set (shape schema) ∪ list_to_set (omap issueField issues)
          ∧ (∀ k, k ∉ omap issueField issues →
                  hasError (formErrors st) k = false)) as [Hdom Herr].
  { split; [done|]. split; [|split; [done|]].
    - intros Hfields k Hk. apply Hdom in Hk.
      apply elem_of_union in Hk as [Hk|Hk]; [done|].
      apply elem_of_list_to_set in Hk. by apply elem_of_list_to_set, Hfields.
    - intros k Hk. by apply Herr, not_named_not_written. }
  induction Hreach as [|st issues e Hreach [IHdom IHerr]|st issues Hreach _].
  - split.
    + simpl. rewrite dom_empty_L. apply empty_subseteq.
    + intros k _. unfold hasError. simpl. by rewrite lookup_empty.
  - simpl. by rewrite handleChange_formErrors.
  - simpl. rewrite validate_formErrors. split.
    + by rewrite foldl_attach_dom, initialFormState_dom.
    + intros k Hk. unfold hasError.
      rewrite foldl_attach_untouched by done.
      apply hasError_initialFormState.
Qed.

(** After the failing pass of the registration form and its completion:
    the error of that pass is still on [confirmPassword], a field of the
    schema, and on no field the pass did not name. *)
Lemma reachable_formErrors_witness :
  reachable registerSchema completedAfterFailure
    [passwordsDoNotMatch [PKString "confirmPassword"]]
  ∧ hasError (formErrors completedAfterFailure) "confirmPassword" = true
  ∧ dom (formErrors completedAfterFailure) ⊆ list_to_set (shape registerSchema)
  ∧ hasError (formErrors completedAfterFailure) "password" = false.
Proof.
  assert (reachable registerSchema completedAfterFailure
            [passwordsDoNotMatch [PKString "confirmPassword"]]) as Hreach.
  { apply reachable_handleChange.
    apply (reachable_validate registerSchema (passwordOnly registerSchema) []).
    apply reachable_handleChange. apply reachable_useForm. }
  destruct (reachable_formErrors registerSchema completedAfterFailure _ Hreach)
    as (_ & Hwithin & _ & Hnamed).
  split; [exact Hreach|]. split; [by vm_compute|]. split.
  - apply Hwithin. intros k Hk.
    apply list_elem_of_singleton in Hk as ->. apply list_elem_of_further, list_elem_of_here.
  - apply Hnamed. intros Hk. by apply list_elem_of_singleton in Hk.
Defined.

(** C8, where the code departs from it: with the path of the custom issue
    misspelt, one [handleChange] and one [validate] reach a state in which
    Field Errors has the key [confirm], and the schema has no such key; the
    keys of Field Errors are not within the schema's. *)
Lemma reachable_formErrors_not_within_schema :
  reachable misspeltSchema
    (call misspeltSchema CallValidate (passwordOnly misspeltSchema))
    [passwordsDoNotMatch [PKString "confirm"]]
  ∧ formErrors (call misspeltSchema CallValidate (passwordOnly misspeltSchema))
      !! "confirm" = Some "The passwords do not match"
  ∧ ("confirm" ∉ shape misspeltSchema)
  ∧ ¬ (dom (formErrors
              (call misspeltSchema CallValidate (passwordOnly misspeltSchema)))
        ⊆ list_to_set (shape misspeltSchema)).
Proof.
  assert ("confirm" ∉ shape misspeltSchema) as Hnot.
  { apply (bool_decide_eq_false_1 _). by vm_compute. }
  assert (formErrors (call misspeltSchema CallValidate (passwordOnly misspeltSchema))
            !! "confirm" = Some "The passwords do not match") as Hlookup.
  { by vm_compute. }
  split; [|split; [done|split; [done|]]].
  - apply (reachable_validate misspeltSchema (passwordOnly misspeltSchema) []).
    apply reachable_handleChange. apply reachable_useForm.
  - intros Hsub. apply Hnot.
    assert ("confirm" ∈ dom (formErrors
              (call misspeltSchema CallValidate (passwordOnly misspeltSchema))))
      as Hin by (apply elem_of_dom; by eexists).
    apply Hsub in Hin. by apply elem_of_list_to_set in Hin.
Qed.

(** ** The claims about change events *)

Lemma handleChange_writes_field_witness :
  "password" ∈ shape registerSchema
  ∧ form (handleChange registerSchema (changeEvent "password" "correct horse")
            (useForm registerSchema)).2 !! "password" = Some "correct horse"
  ∧ form (handleChange registerSchema (changeEvent "password" "correct horse")
            (useForm registerSchema)).2 !! "confirmPassword" = Some "".
Proof.
  assert ("password" ∈ shape registerSchema) as Hin by apply list_elem_of_here.
  destruct (handleChange_writes_field registerSchema
              (changeEvent "password" "correct horse")
              (useForm registerSchema) Hin) as (Hwritten & Hothers & _).
  split; [exact Hin|]. split; [exact Hwritten|].
  rewrite (Hothers "confirmPassword"); [by vm_compute | done].
Defined.

(** C5, at a name every object inherits: [toString] is no key of the
    schema, yet [handleChange] writes it into Field Values and logs
    nothing. *)
Example handleChange_inherited_name :
  ("toString" ∉ shape registerSchema)
  ∧ handleChange registerSchema (changeEvent "toString" "x")
      (useForm registerSchema)
    = ((), {| form := <["toString" := "x"]> (form (useForm registerSchema));
              formErrors := ∅;
              console := [] |})
  ∧ form (handleChange registerSchema (changeEvent "toString" "x")
            (useForm registerSchema)).2
    ≠ form (useForm registerSchema).
Proof.
  split; [apply (bool_decide_eq_false_1 _); by vm_compute|].
  split; [done|].
  simpl. intros Heq.
  assert (initialFormState registerSchema !! "toString" = Some "x") as Hx.
  { rewrite <- Heq. apply lookup_insert_eq. }
  vm_compute in Hx. discriminate Hx.
Qed.

(** ** More on validation *)

Lemma omap_issueField_nil (issues : list ZodIssue) :
  (∀ issue, issue ∈ issues → issueField issue = None) →
  omap issueField issues = [].
Proof.
  induction issues as [|issue issues IH]; intros Hnone; [done|].
  simpl. rewrite (Hnone issue) by apply list_elem_of_here.
  apply IH. intros i Hi. apply Hnone. by apply list_elem_of_further.
Qed.

Lemma dropped_all (issues : list ZodIssue) :
  (∀ issue, issue ∈ issues → issueField issue = None) →
  dropped issues = issues.
Proof.
  unfold dropped.
  induction issues as [|issue issues IH]; intros Hnone; [done|].
  rewrite filter_cons_True by (apply Hnone, list_elem_of_here).
  f_equal. apply IH. intros i Hi. apply Hnone. by apply list_elem_of_further.
Qed.

(** X1: what [validate] returns and leaves behind does not depend on what
    was in Field Errors: errors put there by hand, through the setter the
    controller hands out, are overwritten by the next pass. *)
Theorem validate_overwrites_formErrors (schema : ZodObject)
    (update : gmap string string → gmap string string) (st : FormState) :
  validate schema (setFormErrors update st).2 = validate schema st.
Proof.
  destruct (safeParse schema (form st)) as [|issues] eqn:Hresult.
  - by rewrite (validate_success _ (setFormErrors update st).2 Hresult),
               (validate_success _ st Hresult).
  - by rewrite (validate_error _ (setFormErrors update st).2 _ Hresult),
               (validate_error _ st _ Hresult).
Qed.

(** X2: a second [validate] right after the first gives the same result
    and the same two stores; only the console grows, by the same reports
    again. *)
Theorem validate_twice (schema : ZodObject) (st : FormState) :
  (validate schema (validate schema st).2).1 = (validate schema st).1
  ∧ form (validate schema (validate schema st).2).2
    = form (validate schema st).2
  ∧ formErrors (validate schema (validate schema st).2).2
    = formErrors (validate schema st).2
  ∧ console (validate schema (validate schema st).2).2
    = (console (validate schema st).2
       ++ (noPathFound <$> dropped (issuesOf (safeParse schema (form st)))))%list.
Proof.
  destruct (safeParse schema (form st)) as [|issues] eqn:Hresult.
  - rewrite (validate_success _ st Hresult). simpl.
    rewrite (validate_success schema (Build_FormState (form st) _ _) Hresult).
    simpl. by rewrite app_nil_r.
  - rewrite (validate_error _ st _ Hresult). simpl.
    by rewrite (validate_error schema (Build_FormState (form st) _ _) _ Hresult).
Qed.

(** [validate_last_issue_wins] on a field with two rules, both broken by
    the empty input: the later issue is shown. *)
Lemma validate_last_issue_wins_witness :
  safeParse pinSchema (form (useForm pinSchema))
    = ParseError [pinTooShort; pinNotDigits]
  ∧ (validate pinSchema (useForm pinSchema)).1 = false
  ∧ formErrors (validate pinSchema (useForm pinSchema)).2 !! "pin"
    = Some "Digits only".
Proof.
  split; [by vm_compute|].
  apply (validate_last_issue_wins pinSchema (useForm pinSchema)
           [pinTooShort; pinNotDigits] "pin" pinNotDigits);
    by vm_compute.
Defined.

(** X4: [validate] writes to the console one "No path found" report for
    each issue it does not write to Field Errors, in the order of the
    issues, and nothing else; a pass that succeeds writes nothing. *)
Theorem validate_console (schema : ZodObject) (st : FormState) :
  console (validate schema st).2
    = (console st
       ++ (noPathFound <$> dropped (issuesOf (safeParse schema (form st)))))%list
  ∧ ((validate schema st).1 = true → console (validate schema st).2 = console st).
Proof.
  destruct (safeParse schema (form st)) as [|issues] eqn:Hresult.
  - rewrite (validate_success _ st Hresult). simpl. by rewrite app_nil_r.
  - by rewrite (validate_error _ st _ Hresult).
Qed.

(** X5: a pass can fail and show nothing: when no issue has a first path
    segment that is truthy, [validate] returns [false], every field is
    left without an error, and each issue is only reported on the
    console. *)
Theorem validate_fails_without_error (schema : ZodObject) (st : FormState)
    (issues : list ZodIssue) :
  safeParse schema (form st) = ParseError issues →
  (∀ issue, issue ∈ issues → issueField issue = None) →
  (validate schema st).1 = false
  ∧ formErrors (validate schema st).2 = initialFormState schema
  ∧ (∀ k, hasError (formErrors (validate schema st).2) k = false)
  ∧ console (validate schema st).2
    = (console st ++ (noPathFound <$> issues))%list.
Proof.
  intros Hko Hnone. rewrite (validate_error _ _ _ Hko). simpl.
  assert (foldl attach (initialFormState schema) issues
          = initialFormState schema) as ->.
  { apply map_eq. intros k. apply foldl_attach_untouched.
    rewrite omap_issueField_nil by done. apply not_elem_of_nil. }
  rewrite dropped_all by done.
  split; [done|]. split; [done|]. split; [|done].
  apply hasError_initialFormState.
Qed.

Lemma validate_fails_without_error_witness :
  safeParse formLevelSchema (form (passwordOnly formLevelSchema))
    = ParseError [passwordsDoNotMatch []]
  ∧ (validate formLevelSchema (passwordOnly formLevelSchema)).1 = false
  ∧ (∀ k, hasError
            (formErrors (validate formLevelSchema (passwordOnly formLevelSchema)).2)
            k = false).
Proof.
  split; [by vm_compute|].
  destruct (validate_fails_without_error formLevelSchema
              (passwordOnly formLevelSchema) [passwordsDoNotMatch []])
    as (Hfalse & _ & Hnone & _).
  - by vm_compute.
  - intros issue Hin. by apply list_elem_of_singleton in Hin as ->.
  - split; [exact Hfalse | exact Hnone].
Defined.

(** X6: an entry [validate] leaves in Field Errors is the empty string of
    the reset, on a field of the schema, or the message of an issue of this
    pass whose path starts at that key: no message is shown on a field the
    validator did not report it for. *)
Theorem validate_errors_come_from_issues (schema : ZodObject) (st : FormState)
    (k m : string) :
  formErrors (validate schema st).2 !! k = Some m →
  (m = "" ∧ k ∈ shape schema)
  ∨ (∃ issue, issue ∈ issuesOf (safeParse schema (form st))
              ∧ firstSegment issue = Some k
              ∧ message issue = m).
Proof.
  rewrite validate_formErrors, foldl_attach_lookup.
  destruct (last _) as [issue|] eqn:Hlast.
  - intros [= <-]. right. exists issue.
    apply last_Some in Hlast as [issues' Hfilter].
    assert (issue ∈ filter (λ issue, issueField issue = Some k)
                      (issuesOf (safeParse schema (form st)))) as Hin.
    { rewrite Hfilter. apply elem_of_app. right. apply list_elem_of_here. }
    apply list_elem_of_filter in Hin as [Hfield Hin].
    split; [done|]. split; [by apply issueField_firstSegment | done].
  - rewrite initialFormState_lookup. case_bool_decide; [|done].
    intros [= <-]. by left.
Qed.

Lemma validate_errors_come_from_issues_witness :
  formErrors (validate pinSchema (useForm pinSchema)).2 !! "pin"
    = Some "Digits only"
  ∧ (("Digits only" = "" ∧ "pin" ∈ shape pinSchema)
     ∨ (∃ issue,
          issue ∈ issuesOf (safeParse pinSchema (form (useForm pinSchema)))
          ∧ firstSegment issue = Some "pin"
          ∧ message issue = "Digits only")).
Proof.
  split; [by vm_compute|].
  apply (validate_errors_come_from_issues pinSchema (useForm pinSchema)).
  by vm_compute.
Defined.

(** X17: when the messages of the issues are not empty, a failing pass
    leaves a message in Field Errors under exactly the keys its issues are
    written to: a key holds a non-empty entry if and only if it is the
    truthy first path segment of some issue.  (The key ["__proto__"] is
    left out: a store keeps no write under it.) *)
Theorem validate_shows_error_iff_reported (schema : ZodObject) (st : FormState)
    (issues : list ZodIssue) (k : string) :
  k ≠ "__proto__" →
  safeParse schema (form st) = ParseError issues →
  (∀ issue, issue ∈ issues → message issue ≠ "") →
  (∃ m, formErrors (validate schema st).2 !! k = Some m ∧ m ≠ "")
  ↔ k ∈ omap issueField issues.
Proof.
  intros _ Hko Hmessages. rewrite (validate_error _ _ _ Hko). simpl.
  rewrite foldl_attach_lookup. split.
  - intros (m & Hentry & Hm).
    destruct (decide (k ∈ omap issueField issues)) as [|Hk]; [done|].
    rewrite filter_issueField_nil in Hentry by done. simpl in Hentry.
    rewrite initialFormState_lookup in Hentry.
    case_bool_decide; congruence.
  - intros Hk. apply list_elem_of_omap in Hk as (issue & Hin & Hfield).
    assert (issue ∈ filter (λ issue, issueField issue = Some k) issues)
      as Hfiltered by by apply list_elem_of_filter.
    destruct (last (filter (λ issue, issueField issue = Some k) issues))
      as [winner|] eqn:Hlast.
    + apply last_Some in Hlast as [others Hothers].
      assert (winner ∈ filter (λ issue, issueField issue = Some k) issues)
        as Hwinner.
      { rewrite Hothers. apply elem_of_app. right. apply list_elem_of_here. }
      apply list_elem_of_filter in Hwinner as [_ Hwinner].
      exists (message winner). split; [done | by apply Hmessages].
    + apply last_None in Hlast. rewrite Hlast in Hfiltered.
      by apply not_elem_of_nil in Hfiltered.
Qed.

Lemma validate_shows_error_iff_reported_witness :
  (∃ m, formErrors (validate pinSchema (useForm pinSchema)).2 !! "pin" = Some m
        ∧ m ≠ "")
  ↔ "pin" ∈ omap issueField [pinTooShort; pinNotDigits].
Proof.
  apply (validate_shows_error_iff_reported pinSchema (useForm pinSchema)
           [pinTooShort; pinNotDigits] "pin").
  - discriminate.
  - by vm_compute.
  - intros issue Hin.
    apply elem_of_cons in Hin as [->|Hin]; [done|].
    by apply list_elem_of_singleton in Hin as ->.
Defined.

(** ** More on change events *)

(** X7 is [handleChange_unknown_name] above; here on a name the schema
    does not have. *)
Lemma handleChange_unknown_name_witness :
  handleChange registerSchema (changeEvent "nickname" "x")
    (useForm registerSchema)
  = ((), {| form := form (useForm registerSchema);
            formErrors := formErrors (useForm registerSchema);
            console := console (useForm registerSchema) ++
              [ {| label := "Invalid input name:";
                   arg := ArgString "nickname" |} ] |}).
Proof.
  apply (handleChange_unknown_name registerSchema
           (changeEvent "nickname" "x") (useForm registerSchema));
    apply (bool_decide_eq_false_1 _); by vm_compute.
Defined.

(** X8: a change event whose name is one that objects inherit from
    [Object.prototype] passes the [in] test of any schema: its value is
    written into Field Values under that name and nothing is logged.  (The
    name ["__proto__"] is left out: it passes the test too, but a store
    keeps no write under it.) *)
Theorem handleChange_writes_inherited_names (schema : ZodObject) (e : Event)
    (st : FormState) :
  target_name e ∈ Object_prototype →
  target_name e ≠ "__proto__" →
  handleChange schema e st =
    ((), {| form := <[target_name e := target_value e]> (form st);
            formErrors := formErrors st;
            console := console st |}).
Proof.
  intros Hproto _. unfold handleChange, js_in.
  rewrite (bool_decide_eq_true_2 (target_name e ∈ Object_prototype)) by done.
  by rewrite orb_true_r.
Qed.

Lemma handleChange_writes_inherited_names_witness :
  handleChange blankNameSchema (changeEvent "constructor" "x")
    (useForm blankNameSchema)
  = ((), {| form := <["constructor" := "x"]> (form (useForm blankNameSchema));
            formErrors := formErrors (useForm blankNameSchema);
            console := console (useForm blankNameSchema) |}).
Proof.
  apply (handleChange_writes_inherited_names blankNameSchema
           (changeEvent "constructor" "x") (useForm blankNameSchema)).
  - apply (bool_decide_eq_true_1 _). by vm_compute.
  - discriminate.
Defined.

(** X9: of two change events on the same name the second decides: Field
    Values is as if the first had not happened. *)
Theorem handleChange_same_name (schema : ZodObject) (e1 e2 : Event)
    (st : FormState) :
  target_name e1 = target_name e2 →
  form (handleChange schema e2 (handleChange schema e1 st).2).2
    = form (handleChange schema e2 st).2
  ∧ formErrors (handleChange schema e2 (handleChange schema e1 st).2).2
    = formErrors (handleChange schema e2 st).2.
Proof.
  intros Hname. unfold handleChange. rewrite Hname.
  destruct (js_in (target_name e2) (shape schema)); simpl; [|done].
  unfold setPath. by rewrite insert_insert_eq.
Qed.

Lemma handleChange_same_name_witness :
  form (handleChange registerSchema (changeEvent "password" "second")
          (handleChange registerSchema (changeEvent "password" "first")
             (useForm registerSchema)).2).2 !! "password"
  = Some "second".
Proof.
  rewrite (proj1 (handleChange_same_name registerSchema
                    (changeEvent "password" "first")
                    (changeEvent "password" "second")
                    (useForm registerSchema) eq_refl)).
  by vm_compute.
Defined.

(** X10: change events on different names do not interfere: in either
    order they leave the same Field Values and the same Field Errors. *)
Theorem handleChange_commute (schema : ZodObject) (e1 e2 : Event)
    (st : FormState) :
  target_name e1 ≠ target_name e2 →
  form (handleChange schema e2 (handleChange schema e1 st).2).2
    = form (handleChange schema e1 (handleChange schema e2 st).2).2
  ∧ formErrors (handleChange schema e2 (handleChange schema e1 st).2).2
    = formErrors (handleChange schema e1 (handleChange schema e2 st).2).2.
Proof.
  intros Hname. unfold handleChange.
  destruct (js_in (target_name e1) (shape schema)),
           (js_in (target_name e2) (shape schema)); simpl; try done.
  unfold setPath. by rewrite insert_insert_ne.
Qed.

Lemma handleChange_commute_witness :
  form (handleChange registerSchema (changeEvent "confirmPassword" "b")
          (handleChange registerSchema (changeEvent "password" "a")
             (useForm registerSchema)).2).2
  = form (handleChange registerSchema (changeEvent "password" "a")
            (handleChange registerSchema (changeEvent "confirmPassword" "b")
               (useForm registerSchema)).2).2.
Proof.
  apply (handleChange_commute registerSchema (changeEvent "password" "a")
           (changeEvent "confirmPassword" "b") (useForm registerSchema)).
  discriminate.
Defined.

(** X11: the two revisions of [handleChange] leave the same Field Values
    and Field Errors on every event; the first never writes to the
    console, the later one differs from it by the report of a rejected
    name only. *)
Theorem first_revision_handleChange (schema : ZodObject) (e : Event)
    (st : FormState) :
  form (FirstRevision.handleChange schema e st).2
    = form (handleChange schema e st).2
  ∧ formErrors (FirstRevision.handleChange schema e st).2
    = formErrors (handleChange schema e st).2
  ∧ console (FirstRevision.handleChange schema e st).2 = console st
  ∧ (form (handleChange schema e st).2 = form st
     ∨ console (handleChange schema e st).2 = console st).
Proof.
  unfold FirstRevision.handleChange, handleChange.
  destruct (js_in (target_name e) (shape schema)); simpl.
  - split; [done|]. split; [done|]. split; [done|]. by right.
  - split; [done|]. split; [done|]. split; [done|]. by left.
Qed.

(** ** Sequences of calls *)

Lemma runCalls_snoc (schema : ZodObject) (calls : list Call) (c : Call)
    (st : FormState) :
  runCalls schema (calls ++ [c]) st = call schema c (runCalls schema calls st).
Proof.
  unfold runCalls. by rewrite foldl_snoc.
Qed.

Lemma runCalls_app (schema : ZodObject) (calls1 calls2 : list Call)
    (st : FormState) :
  runCalls schema (calls1 ++ calls2) st
    = runCalls schema calls2 (runCalls schema calls1 st).
Proof.
  unfold runCalls. by rewrite foldl_app.
Qed.

Lemma call_validate_stores (schema : ZodObject) (st : FormState) :
  form (call schema CallValidate st) = form st.
Proof.
  simpl. destruct (safeParse schema (form st)) as [|issues] eqn:Hresult.
  - by rewrite (validate_success _ _ Hresult).
  - by rewrite (validate_error _ _ _ Hresult).
Qed.

Lemma call_form_lookup (schema : ZodObject) (c : Call) (st : FormState)
    (k : string) :
  form (call schema c st) !! k =
    match inputTo k c with
    | Some v => if js_in k (shape schema) then Some v else form st !! k
    | None => form st !! k
    end.
Proof.
  destruct c as [e|]; [|by rewrite call_validate_stores].
  simpl. unfold handleChange. case_bool_decide as Hname.
  - subst k. destruct (js_in _ _); simpl; [|done].
    apply lookup_insert_eq.
  - destruct (js_in _ _); simpl; [|done].
    by apply lookup_insert_ne.
Qed.

Lemma call_formErrors_not_validate (schema : ZodObject) (c : Call)
    (st : FormState) :
  c ≠ CallValidate → formErrors (call schema c st) = formErrors st.
Proof.
  destruct c as [e|]; [|done]. intros _. apply handleChange_formErrors.
Qed.

Lemma runCalls_form_lookup (schema : ZodObject) (calls : list Call)
    (st : FormState) (k : string) :
  form (runCalls schema calls st) !! k
    = if js_in k (shape schema)
      then match lastInput k calls with
           | Some v => Some v
           | None => form st !! k
           end
      else form st !! k.
Proof.
  unfold lastInput. induction calls as [|c calls IH] using rev_ind.
  - simpl. by destruct (js_in _ _).
  - rewrite runCalls_snoc, call_form_lookup, omap_app, last_app. simpl.
    destruct (inputTo k c) as [v|]; simpl; [|done].
    destruct (js_in k (shape schema)); [done|].
    by rewrite IH.
Qed.

(** X12: Field Values follows the change events.  After any calls, a name
    that passes the [in] test holds the value of the last change event on
    it, or what it held before when there was none; any other name is as it
    was.  From [useForm], a field of the schema holds the last value typed
    into it, the empty string when nothing was.  (The name ["__proto__"] is
    left out: a store keeps no write under it.) *)
Theorem runCalls_form (schema : ZodObject) (calls : list Call) (st : FormState)
    (k : string) :
  k ≠ "__proto__" →
  form (runCalls schema calls st) !! k
    = (if js_in k (shape schema)
       then match lastInput k calls with
            | Some v => Some v
            | None => form st !! k
            end
       else form st !! k)
  ∧ (k ∈ shape schema →
       form (runCalls schema calls (useForm schema)) !! k
         = Some (default "" (lastInput k calls))).
Proof.
  intros _. split; [apply runCalls_form_lookup|].
  intros Hk. rewrite runCalls_form_lookup, (js_in_own _ _ Hk).
  destruct (lastInput k calls); [done|]. simpl.
  rewrite initialFormState_lookup. by rewrite bool_decide_eq_true_2.
Qed.

(** The registration form after the password was typed twice and the pass
    run in between: the field holds the second value, the other field the
    empty string. *)
Lemma runCalls_form_witness :
  form (runCalls registerSchema
          [ CallHandleChange (changeEvent "password" "first");
            CallValidate;
            CallHandleChange (changeEvent "password" "second") ]
          (useForm registerSchema)) !! "password" = Some "second"
  ∧ form (runCalls registerSchema
            [ CallHandleChange (changeEvent "password" "first");
              CallValidate;
              CallHandleChange (changeEvent "password" "second") ]
            (useForm registerSchema)) !! "confirmPassword" = Some "".
Proof.
  split.
  - rewrite (proj2 (runCalls_form registerSchema
                      [ CallHandleChange (changeEvent "password" "first");
                        CallValidate;
                        CallHandleChange (changeEvent "password" "second") ]
                      (useForm registerSchema) "password" ltac:(discriminate))
               ltac:(apply list_elem_of_here)).
    by vm_compute.
  - by vm_compute.
Defined.

(** X13: after [useForm] and any calls, Field Values has every key of the
    schema, and has no key besides those of the schema and the names
    inherited from [Object.prototype]. *)
Theorem runCalls_form_keys (schema : ZodObject) (calls : list Call) :
  list_to_set (shape schema)
    ⊆ dom (form (runCalls schema calls (useForm schema)))
  ∧ dom (form (runCalls schema calls (useForm schema)))
    ⊆ list_to_set (shape schema) ∪ list_to_set Object_prototype.
Proof.
  split; intros k.
  - rewrite elem_of_list_to_set, elem_of_dom. intros Hk.
    rewrite runCalls_form_lookup, (js_in_own _ _ Hk). simpl.
    rewrite initialFormState_lookup, bool_decide_eq_true_2 by done.
    by destruct (lastInput k calls).
  - rewrite elem_of_dom, elem_of_union, !elem_of_list_to_set.
    rewrite runCalls_form_lookup. unfold js_in. simpl.
    destruct (bool_decide (k ∈ shape schema)) eqn:Hown.
    { intros _. left. by apply bool_decide_eq_true_1 in Hown. }
    destruct (bool_decide (k ∈ Object_prototype)) eqn:Hproto; simpl.
    { intros _. right. by apply bool_decide_eq_true_1 in Hproto. }
    rewrite initialFormState_lookup, Hown. by intros [v Hv].
Qed.

Lemma runCalls_no_validate (schema : ZodObject) (calls : list Call)
    (st : FormState) :
  CallValidate ∉ calls →
  formErrors (runCalls schema calls st) = formErrors st.
Proof.
  induction calls as [|c calls IH] using rev_ind; intros Hno; [done|].
  rewrite runCalls_snoc, call_formErrors_not_validate.
  - apply IH. intros Hin. apply Hno, elem_of_app. by left.
  - intros ->. apply Hno, elem_of_app. right. apply list_elem_of_here.
Qed.

(** X14: only [validate] writes Field Errors.  Calls other than
    [validate] leave it as it is, however many: an error stays on a field
    while the field is being corrected, until the next pass; and before
    the first pass Field Errors is the empty mapping. *)
Theorem runCalls_keeps_formErrors (schema : ZodObject) (calls : list Call)
    (st : FormState) :
  CallValidate ∉ calls →
  formErrors (runCalls schema calls st) = formErrors st
  ∧ formErrors (runCalls schema calls (useForm schema)) = ∅.
Proof.
  intros Hno. by rewrite !runCalls_no_validate.
Qed.

Lemma runCalls_keeps_formErrors_witness :
  hasError
    (formErrors
       (runCalls registerSchema
          [CallHandleChange (changeEvent "confirmPassword" "correct horse")]
          (call registerSchema CallValidate (passwordOnly registerSchema))))
    "confirmPassword" = true
  ∧ safeParse registerSchema
      (form
         (runCalls registerSchema
            [CallHandleChange (changeEvent "confirmPassword" "correct horse")]
            (call registerSchema CallValidate (passwordOnly registerSchema))))
    = ParseSuccess.
Proof.
  split; [|by vm_compute].
  destruct (runCalls_keeps_formErrors registerSchema
              [CallHandleChange (changeEvent "confirmPassword" "correct horse")]
              (call registerSchema CallValidate (passwordOnly registerSchema)))
    as [Hkept _].
  { intros Hin. by apply list_elem_of_singleton in Hin. }
  rewrite Hkept. by vm_compute.
Defined.

(** X15: Field Errors shows the latest pass.  After any calls that include
    a [validate], Field Errors is what that last [validate] left, computed
    from Field Values as they were when it ran; the change events since
    have no part in it. *)
Theorem runCalls_formErrors_latest_validate (schema : ZodObject)
    (before after : list Call) (st : FormState) :
  CallValidate ∉ after →
  formErrors (runCalls schema (before ++ CallValidate :: after) st)
    = formErrors (validate schema (runCalls schema before st)).2.
Proof.
  intros Hno. rewrite runCalls_app.
  change (runCalls schema (CallValidate :: after) (runCalls schema before st))
    with (runCalls schema after
            (call schema CallValidate (runCalls schema before st))).
  by rewrite runCalls_no_validate.
Qed.

Lemma runCalls_formErrors_latest_validate_witness :
  formErrors
    (runCalls registerSchema
       ([CallHandleChange (changeEvent "password" "correct horse")]
        ++ CallValidate
           :: [CallHandleChange (changeEvent "confirmPassword" "correct horse")])
       (useForm registerSchema))
  = formErrors
      (validate registerSchema
         (runCalls registerSchema
            [CallHandleChange (changeEvent "password" "correct horse")]
            (useForm registerSchema))).2.
Proof.
  apply (runCalls_formErrors_latest_validate registerSchema
           [CallHandleChange (changeEvent "password" "correct horse")]
           [CallHandleChange (changeEvent "confirmPassword" "correct horse")]
           (useForm registerSchema)).
  intros Hin. by apply list_elem_of_singleton in Hin.
Defined.

(** ** The build's [external] test *)


